(** * HydroDynamics: the equilibrium model of [main.cpp]

    The program keeps two fluid containers, [big] and [small], joined at
    the bottom, and one scalar [externalPressure] that the keyboard moves
    in steps of [0.1f].  Once per frame [update] moves half of the height
    discrepancy from one side to the other unless that would drain a side
    below empty.

    The C++ code computes with [float].  The embedding is written once,
    over an interface of the arithmetic operations the source uses, and
    is instantiated twice:

    - [binary32]: IEEE-754 single precision, round to nearest even, every
      operation rounded to [float] (the Standard Library's [SpecFloat]
      with [prec = 24], [emax = 128]); this is what the compiled program
      computes when [float] expressions are evaluated in single
      precision, without extended intermediates or fused operations;
    - [exact]: the rationals [Q], the arithmetic without rounding.

    Statements that only depend on the control flow of the code are
    proved for every instance; statements about the numbers are proved in
    the instance they speak about. *)

From Stdlib Require Import ZArith QArith Qabs Lia Lqa Bool List.
From Stdlib Require Import Floats.SpecFloat.
Import ListNotations.

Set Implicit Arguments.

(** ** The arithmetic of the source *)

(** What [main.cpp] does with numbers: integer and decimal literals,
    [+], [-], [*], [/], [==] and [<]. *)
Class FloatOps (F : Type) : Type := {
  fofZ : Z -> F;
  flit : Z -> positive -> F;
  fadd : F -> F -> F;
  fsub : F -> F -> F;
  fmul : F -> F -> F;
  fdiv : F -> F -> F;
  feqb : F -> F -> bool;
  fltb : F -> F -> bool
}.

(** IEEE-754 binary32.  A decimal literal [n/d] denotes the [float]
    nearest to it, which is the correctly rounded quotient of the two
    integers (both are small enough to be exact). *)
Module B32.
Definition prec : Z := 24.
Definition emax : Z := 128.
Definition float : Type := spec_float.
Definition of_Z (z : Z) : float := binary_normalize prec emax z 0 false.
Definition lit (n : Z) (d : positive) : float :=
  SFdiv prec emax (of_Z n) (of_Z (Zpos d)).

(** The values of [0.0f], [0.5f] and [-0.5f]. *)
Definition zero : float := S754_zero false.
Definition half : float := S754_finite false 8388608 (-24).
Definition minus_half : float := S754_finite true 8388608 (-24).

(** [r] carries the sign [sx] (a NaN carries none). *)
Definition sign_is (sx : bool) (r : float) : Prop :=
  match r with
  | S754_zero s | S754_infinity s | S754_finite s _ _ => s = sx
  | S754_nan => True
  end.

(** [r] is a zero or a finite number of sign [sx] and of magnitude at
    most one half. *)
Definition at_most_half (sx : bool) (r : float) : Prop :=
  match r with
  | S754_zero s => s = sx
  | S754_finite s m e => s = sx /\ (e <= -1)%Z /\ (Zpos m <= 2 ^ (-1 - e))%Z
  | _ => False
  end.
End B32.

#[export] Instance binary32 : FloatOps B32.float := {|
  fofZ := B32.of_Z;
  flit := B32.lit;
  fadd := SFadd B32.prec B32.emax;
  fsub := SFsub B32.prec B32.emax;
  fmul := SFmul B32.prec B32.emax;
  fdiv := SFdiv B32.prec B32.emax;
  feqb := SFeqb;
  fltb := SFltb
|}.

(** Exact rational arithmetic. *)
#[export] Instance exact : FloatOps Q := {|
  fofZ := inject_Z;
  flit := Qmake;
  fadd := Qplus;
  fsub := Qminus;
  fmul := Qmult;
  fdiv := Qdiv;
  feqb := Qeq_bool;
  fltb := fun a b => negb (Qle_bool b a)
|}.

(** ** GLFW key codes and actions used by [key_callback]

    The values are those of GLFW 3's header [glfw3.h], which
    [GLIncludes.h] brings in. *)

Definition GLFW_RELEASE : Z := 0.
Definition GLFW_PRESS : Z := 1.
Definition GLFW_REPEAT : Z := 2.
Definition GLFW_KEY_SPACE : Z := 32.
Definition GLFW_KEY_LEFT_SHIFT : Z := 340.

(** ** The data model *)

Module glm.
Record vec2 (F : Type) : Type := Build_vec2 { x : F; y : F }.
Arguments Build_vec2 {F} _ _.
Arguments x {F} _.
Arguments y {F} _.
End glm.

Section Model.

Context {F : Type} {ops : FloatOps F}.

Definition density : F := flit 10 10.
Definition gravity : F := flit 98 10.

(** One side of the apparatus. *)
Record container : Type := Build_container {
  height : F;
  width : F;
  bottomLeft : glm.vec2 F;
  bottomRight : glm.vec2 F;
  topLeft : glm.vec2 F;
  topRight : glm.vec2 F;
  pressure : F
}.

(** The globals [big], [small] and [externalPressure]. *)
Record state : Type := Build_state {
  big : container;
  small : container;
  externalPressure : F
}.

(** Field assignments. *)
Definition set_y (v : glm.vec2 F) (a : F) : glm.vec2 F :=
  glm.Build_vec2 (glm.x v) a.

Definition set_height (c : container) (a : F) : container :=
  Build_container a (width c) (bottomLeft c) (bottomRight c)
                  (topLeft c) (topRight c) (pressure c).

Definition set_width (c : container) (a : F) : container :=
  Build_container (height c) a (bottomLeft c) (bottomRight c)
                  (topLeft c) (topRight c) (pressure c).

Definition set_topLeft_y (c : container) (a : F) : container :=
  Build_container (height c) (width c) (bottomLeft c) (bottomRight c)
                  (set_y (topLeft c) a) (topRight c) (pressure c).

Definition set_topRight_y (c : container) (a : F) : container :=
  Build_container (height c) (width c) (bottomLeft c) (bottomRight c)
                  (topLeft c) (set_y (topRight c) a) (pressure c).

Definition set_pressure (c : container) (a : F) : container :=
  Build_container (height c) (width c) (bottomLeft c) (bottomRight c)
                  (topLeft c) (topRight c) a.

Definition with_big (s : state) (c : container) : state :=
  Build_state c (small s) (externalPressure s).

Definition with_small (s : state) (c : container) : state :=
  Build_state (big s) c (externalPressure s).

Definition with_externalPressure (s : state) (a : F) : state :=
  Build_state (big s) (small s) a.

(** ** [setup] *)

Definition setup_big : container :=
  let height := flit 5 10 in
  Build_container
    height
    (flit 5 10)
    (glm.Build_vec2 (flit (-75) 100) (flit (-5) 10))
    (glm.Build_vec2 (flit (-25) 100) (flit (-5) 10))
    (glm.Build_vec2 (flit (-75) 100) (flit 0 10))
    (glm.Build_vec2 (flit (-25) 100) (flit 0 10))
    (fmul (fmul height density) gravity).

Definition setup_small : container :=
  let height := flit 5 10 in
  Build_container
    height
    (flit 25 100)
    (glm.Build_vec2 (flit 5 10) (flit (-5) 10))
    (glm.Build_vec2 (flit 75 100) (flit (-5) 10))
    (glm.Build_vec2 (flit 5 10) (flit 0 10))
    (glm.Build_vec2 (flit 75 100) (flit 0 10))
    (fmul (fmul height density) gravity).

(** The state after the initialiser [float externalPressure = 0] and
    [setup()]. *)
Definition setup : state :=
  Build_state setup_big setup_small (fofZ 0).

(** ** [update], one physics time step *)

Definition update (s : state) : state :=
  (* big.pressure = (big.height) * gravity * density; *)
  let s := with_big s (set_pressure (big s)
             (fmul (fmul (height (big s)) gravity) density)) in
  (* small.pressure = (small.height) * gravity * density; *)
  let s := with_small s (set_pressure (small s)
             (fmul (fmul (height (small s)) gravity) density)) in
  let LeftPressure := fadd (pressure (big s)) (externalPressure s) in
  let rightPressure := pressure (small s) in
  if feqb LeftPressure rightPressure then s
  else
    let h := fdiv LeftPressure (fmul gravity density) in
    let change := height (small s) in
    let change := fsub change h in
    let change := fdiv change (flit 20 10) in
    if fltb (fadd (height (big s)) change) (flit 0 10)
       || fltb (fadd h change) (flit 0 10)
    then s
    else
      (* big.height += change; h += change; *)
      let s := with_big s (set_height (big s)
                 (fadd (height (big s)) change)) in
      let h := fadd h change in
      let s := with_small s (set_topLeft_y (small s) (fsub h (flit 5 10))) in
      let s := with_small s (set_topRight_y (small s) (fsub h (flit 5 10))) in
      let s := with_big s (set_topLeft_y (big s)
                 (fsub (height (big s)) (flit 5 10))) in
      let s := with_big s (set_topRight_y (big s)
                 (fsub (height (big s)) (flit 5 10))) in
      (* small.height = small.topLeft.y - small.bottomLeft.y; *)
      with_small s (set_height (small s)
        (fsub (glm.y (topLeft (small s))) (glm.y (bottomLeft (small s))))).

(** ** [key_callback] *)

Definition key_callback (key scancode action mods : Z) (s : state) : state :=
  let s :=
    if (key =? GLFW_KEY_SPACE)%Z
       && ((action =? GLFW_PRESS)%Z || (action =? GLFW_REPEAT)%Z)
    then with_externalPressure s (fadd (externalPressure s) (flit 1 10))
    else s in
  if (key =? GLFW_KEY_LEFT_SHIFT)%Z
     && ((action =? GLFW_PRESS)%Z || (action =? GLFW_REPEAT)%Z)
  then with_externalPressure s (fsub (externalPressure s) (flit 1 10))
  else s.

(** The statement [externalPressure += delta] for an arbitrary [delta];
    [key_callback] executes it with [delta = 0.1f] (and its mirror image
    [externalPressure -= 0.1f]). *)
Definition applyPressureDelta (delta : F) (s : state) : state :=
  with_externalPressure s (fadd (externalPressure s) delta).

(** ** The main loop as a sequence of events

    [main] alternates [update()] with [glfwPollEvents()], which calls
    [key_callback] once per pending key event. *)
Inductive event : Type :=
| Tick
| Key (key scancode action mods : Z).

Definition step (e : event) (s : state) : state :=
  match e with
  | Tick => update s
  | Key key scancode action mods => key_callback key scancode action mods s
  end.

Fixpoint run (tr : list event) (s : state) : state :=
  match tr with
  | [] => s
  | e :: tr' => run tr' (step e s)
  end.

(** [n] consecutive calls of [update]. *)
Fixpoint ticks (n : nat) (s : state) : state :=
  match n with
  | O => s
  | S n' => ticks n' (update s)
  end.

(** States the program can be in: [setup], then key events and ticks; the
    pressure may also move by an arbitrary amount at once. *)
Inductive reachable : state -> Prop :=
| reach_setup : reachable setup
| reach_tick s : reachable s -> reachable (update s)
| reach_key s key scancode action mods :
    reachable s -> reachable (key_callback key scancode action mods s)
| reach_delta s delta : reachable s -> reachable (applyPressureDelta delta s).

(** ** The quantities [update] computes, as functions of the state *)

Definition hydrostatic (c : container) : F :=
  fmul (fmul (height c) gravity) density.

Definition LeftPressure (s : state) : F :=
  fadd (hydrostatic (big s)) (externalPressure s).

Definition rightPressure (s : state) : F := hydrostatic (small s).

Definition target_h (s : state) : F :=
  fdiv (LeftPressure s) (fmul gravity density).

Definition change (s : state) : F :=
  fdiv (fsub (height (small s)) (target_h s)) (flit 20 10).

(** The test [LeftPressure == rightPressure]. *)
Definition balanced (s : state) : bool :=
  feqb (LeftPressure s) (rightPressure s).

(** The test [big.height + change < 0.0f || h + change < 0.0f]. *)
Definition guard (s : state) : bool :=
  fltb (fadd (height (big s)) (change s)) (flit 0 10)
  || fltb (fadd (target_h s) (change s)) (flit 0 10).

(** The first two assignments of [update]: both [pressure] fields are
    recomputed from the heights. *)
Definition refresh (s : state) : state :=
  Build_state (set_pressure (big s) (hydrostatic (big s)))
              (set_pressure (small s) (hydrostatic (small s)))
              (externalPressure s).

(** The state [update] leaves when it reaches its last line. *)
Definition applied (s : state) : state :=
  let bh := fadd (height (big s)) (change s) in
  let h := fadd (target_h s) (change s) in
  Build_state
    (Build_container bh (width (big s))
       (bottomLeft (big s)) (bottomRight (big s))
       (set_y (topLeft (big s)) (fsub bh (flit 5 10)))
       (set_y (topRight (big s)) (fsub bh (flit 5 10)))
       (hydrostatic (big s)))
    (Build_container
       (fsub (fsub h (flit 5 10)) (glm.y (bottomLeft (small s))))
       (width (small s))
       (bottomLeft (small s)) (bottomRight (small s))
       (set_y (topLeft (small s)) (fsub h (flit 5 10)))
       (set_y (topRight (small s)) (fsub h (flit 5 10)))
       (hydrostatic (small s)))
    (externalPressure s).

(** The [pressure] fields hold what [update] would recompute. *)
Definition pressure_fresh (s : state) : Prop :=
  pressure (big s) = hydrostatic (big s)
  /\ pressure (small s) = hydrostatic (small s).

(** Overwriting the two [width] fields, and the relation between two
    states that agree on everything else. *)
Definition with_widths (wb ws : F) (s : state) : state :=
  Build_state (set_width (big s) wb) (set_width (small s) ws)
              (externalPressure s).

Definition same_but_width (s1 s2 : state) : Prop :=
  exists wb ws, s2 = with_widths wb ws s1.

End Model.

Arguments container F : clear implicits.
Arguments state F : clear implicits.

(** ** Definitions for the exact instance *)

Module Exact.

Local Open Scope Q_scope.

(** The heights are not negative and the bottom edge of the small
    container is where [setup] puts it. *)
Definition valid (s : state Q) : Prop :=
  0 <= height (big s)
  /\ 0 <= height (small s)
  /\ glm.y (bottomLeft (small s)) == - (1 # 2).

(** Absolute difference of the two hydrostatic pressures
    [height * gravity * density]. *)
Definition pressure_gap (s : state Q) : Q :=
  Qabs (hydrostatic (big s) - hydrostatic (small s)).

(** The same difference, read from the two [pressure] fields. *)
Definition stored_gap (s : state Q) : Q :=
  Qabs (pressure (big s) - pressure (small s)).

(** The [pressure] fields hold [height * gravity * density]. *)
Definition fresh (s : state Q) : Prop :=
  pressure (big s) == hydrostatic (big s)
  /\ pressure (small s) == hydrostatic (small s).

End Exact.

(** ** Scenarios *)

Module Scenario.

Section Scenarios.

Context {F : Type} {ops : FloatOps F}.

Definition init : state F := setup.

Definition space (s : state F) : state F :=
  key_callback GLFW_KEY_SPACE 0 GLFW_PRESS 0 s.

Definition shift (s : state F) : state F :=
  key_callback GLFW_KEY_LEFT_SHIFT 0 GLFW_PRESS 0 s.

(** Space, one tick, left shift, one tick: the heights are back at
    [0.5f] and the [pressure] fields are those of the tick before. *)
Definition back_in_balance : state F :=
  update (shift (update (space init))).

(** Space, one tick, then left shift two hundred times. *)
Definition pulled_hard : state F :=
  Nat.iter 200 shift (update (space init)).

(** Left shift a thousand times from the initial state:
    [externalPressure] is [-100], up to rounding. *)
Definition very_negative : state F :=
  Nat.iter 1000 shift init.

(** The same thousand key events with a tick after each. *)
Definition very_negative_interleaved : state F :=
  Nat.iter 1000 (fun s => update (shift s)) init.

End Scenarios.

Arguments init {F} ops.
Arguments space {F} ops s.
Arguments shift {F} ops s.
Arguments back_in_balance {F} ops.
Arguments pulled_hard {F} ops.
Arguments very_negative {F} ops.
Arguments very_negative_interleaved {F} ops.

End Scenario.

(** ** Rendering: [drawPiston] and [renderScene]

    Both functions only issue OpenGL calls.  They are modelled by the
    sequence of calls they issue, as a function of the state.  The
    constant arguments ([2.5], [0.8], ...) are kept as the decimal
    literals of the source; the enumerators are those of [gl.h]. *)

Definition GL_COLOR_BUFFER_BIT : Z := 0x4000.
Definition GL_DEPTH_BUFFER_BIT : Z := 0x100.
Definition GL_QUADS : Z := 7.

(** A decimal literal, numerator and power of ten. *)
Definition literal : Type := (Z * positive)%type.
Definition dec (n : Z) (d : positive) : literal := (n, d).

(** A key event as GLFW hands it to the callback: key, scancode, action,
    mods. *)
Definition key_event : Type := (Z * Z * Z * Z)%type.

(** The number of [0.1f] steps an event adds to [externalPressure]. *)
Definition pressure_step (e : event) : Z :=
  match e with
  | Tick => 0
  | Key key _ action _ =>
      if (action =? GLFW_PRESS) || (action =? GLFW_REPEAT)
      then (if key =? GLFW_KEY_SPACE then 1 else 0)
           - (if key =? GLFW_KEY_LEFT_SHIFT then 1 else 0)
      else 0
  end%Z.

Definition pressure_steps (tr : list event) : Z :=
  fold_right (fun e k => (pressure_step e + k)%Z) 0%Z tr.

Section Rendering.

Context {F : Type} {ops : FloatOps F}.

Inductive gl_call : Type :=
| glClear (mask : Z)
| glClearColor (r g b a : literal)
| glUseProgram (program : Z)
| glLineWidth (w : literal)
| glColor3f (r g b : literal)
| glBegin (mode : Z)
| glVertex2f (x y : F)
| glEnd.

(** [glVertex2fv((float* ) &v)] reads the two floats of [v]. *)
Definition glVertex2fv (v : glm.vec2 F) : gl_call :=
  glVertex2f (glm.x v) (glm.y v).

(** [glm::vec2 + glm::vec2]. *)
Definition vec2_add (a b : glm.vec2 F) : glm.vec2 F :=
  glm.Build_vec2 (fadd (glm.x a) (glm.x b)) (fadd (glm.y a) (glm.y b)).

Definition drawPiston (s : state F) : list gl_call :=
  let pistonTopLeft :=
    vec2_add (topLeft (big s)) (glm.Build_vec2 (fofZ 0) (flit 1 10)) in
  let pistonTopRight :=
    vec2_add (topRight (big s)) (glm.Build_vec2 (fofZ 0) (flit 1 10)) in
  let middle :=
    fdiv (fadd (glm.x (topLeft (big s))) (glm.x (topRight (big s))))
         (flit 20 10) in
  [ glLineWidth (dec 25 10);
    glColor3f (dec 8 10) (dec 2 10) (dec 2 10);
    glBegin GL_QUADS;
    glVertex2fv (topLeft (big s));
    glVertex2fv (topRight (big s));
    glVertex2fv pistonTopRight;
    glVertex2fv pistonTopLeft;
    glVertex2f (fsub middle (flit 1 100)) (glm.y (topLeft (big s)));
    glVertex2f (fadd middle (flit 1 100)) (glm.y (topLeft (big s)));
    glVertex2f (fadd middle (flit 1 100)) (flit 10 10);
    glVertex2f (fsub middle (flit 1 100)) (flit 10 10);
    glEnd ].

Definition renderScene (s : state F) : list gl_call :=
  [ glClear (Z.lor GL_COLOR_BUFFER_BIT GL_DEPTH_BUFFER_BIT);
    glClearColor (dec 0 10) (dec 0 10) (dec 0 10)
                 (dec 10 10);
    glUseProgram 0;
    glLineWidth (dec 25 10);
    glColor3f (dec 2 10) (dec 2 10) (dec 8 10);
    glBegin GL_QUADS;
    (* big container *)
    glVertex2fv (bottomLeft (big s));
    glVertex2fv (bottomRight (big s));
    glVertex2fv (topRight (big s));
    glVertex2fv (topLeft (big s));
    (* small container *)
    glVertex2fv (bottomLeft (small s));
    glVertex2fv (bottomRight (small s));
    glVertex2fv (topRight (small s));
    glVertex2fv (topLeft (small s));
    (* tube joining the two containers *)
    glVertex2f (glm.x (bottomRight (big s))) (glm.y (bottomRight (big s)));
    glVertex2f (glm.x (bottomLeft (small s))) (glm.y (bottomLeft (small s)));
    glVertex2f (glm.x (bottomLeft (small s)))
               (fadd (glm.y (bottomLeft (small s))) (flit 2 100));
    glVertex2f (glm.x (bottomRight (big s)))
               (fadd (glm.y (bottomRight (big s))) (flit 2 100));
    glEnd ]
  ++ drawPiston s.

(** The vertices of a sequence of calls, in the order they are issued. *)
Fixpoint vertices (calls : list gl_call) : list (F * F) :=
  match calls with
  | [] => []
  | glVertex2f x y :: rest => (x, y) :: vertices rest
  | _ :: rest => vertices rest
  end.

(** ** The main loop

    [glfwPollEvents] runs [key_callback] on the pending key events, in
    order.  [main] calls [setup] and then, until the window is closed,
    [update], [renderScene], [glfwSwapBuffers] and [glfwPollEvents].
    The loop is modelled by the frames it draws, given the key events
    polled in each iteration. *)
Definition glfwPollEvents (keys : list key_event) (s : state F) : state F :=
  fold_left
    (fun s k =>
       let '(key, scancode, action, mods) := k in
       key_callback key scancode action mods s)
    keys s.

Fixpoint main_loop (inputs : list (list key_event)) (s : state F)
  : list (list gl_call) :=
  match inputs with
  | [] => []
  | keys :: rest =>
      let s := update s in
      renderScene s :: main_loop rest (glfwPollEvents keys s)
  end.

Definition main (inputs : list (list key_event)) : list (list gl_call) :=
  main_loop inputs setup.

(** The state each iteration of the loop draws. *)
Fixpoint frame_states (inputs : list (list key_event)) (s : state F)
  : list (state F) :=
  match inputs with
  | [] => []
  | keys :: rest =>
      let s := update s in
      s :: frame_states rest (glfwPollEvents keys s)
  end.

(** Moving the two top edges of a state to [yb] and [ys]. *)
Definition with_tops (yb ys : F) (s : state F) : state F :=
  Build_state
    (set_topRight_y (set_topLeft_y (big s) yb) yb)
    (set_topRight_y (set_topLeft_y (small s) ys) ys)
    (externalPressure s).

(** Everything but the heights, the pressures and the height of the two
    top edges is as [setup] leaves it, and the top edges are level. *)
Definition footprint (s : state F) : Prop :=
  bottomLeft (big s) = bottomLeft setup_big
  /\ bottomRight (big s) = bottomRight setup_big
  /\ glm.x (topLeft (big s)) = glm.x (topLeft setup_big)
  /\ glm.x (topRight (big s)) = glm.x (topRight setup_big)
  /\ glm.y (topRight (big s)) = glm.y (topLeft (big s))
  /\ bottomLeft (small s) = bottomLeft setup_small
  /\ bottomRight (small s) = bottomRight setup_small
  /\ glm.x (topLeft (small s)) = glm.x (topLeft setup_small)
  /\ glm.x (topRight (small s)) = glm.x (topRight setup_small)
  /\ glm.y (topRight (small s)) = glm.y (topLeft (small s)).

(** The top edge of the big container is at [big.height - 0.5f], and
    [small.height] is the height of the small quad. *)
Definition coupled (s : state F) : Prop :=
  glm.y (topLeft (big s)) = fsub (height (big s)) (flit 5 10)
  /\ height (small s) =
       fsub (glm.y (topLeft (small s))) (glm.y (bottomLeft (small s))).

End Rendering.

Arguments gl_call F : clear implicits.

(** ** Definitions for the pictures in exact arithmetic *)

Module Picture.

Local Open Scope Q_scope.

(** A vertex inside the square [-1 <= x, y <= 1] that OpenGL shows. *)
Definition in_viewport (v : Q * Q) : Prop :=
  -1 <= fst v <= 1 /\ -1 <= snd v <= 1.

(** Two vertices with equal coordinates. *)
Definition same_vertex (v w : Q * Q) : Prop :=
  fst v == fst w /\ snd v == snd w.

(** The heights are not negative, they add up to [1], and the top edges
    are half a unit below the heights. *)
Definition settled_geometry (s : state Q) : Prop :=
  Exact.valid s
  /\ height (big s) + height (small s) == 1
  /\ glm.y (topLeft (big s)) == height (big s) - (1 # 2)
  /\ glm.y (topLeft (small s)) == height (small s) - (1 # 2).

End Picture.

(** * Properties that hold for every arithmetic *)

Section ControlFlow.

Context {F : Type} {ops : FloatOps F}.

Implicit Types (s : state F) (c : container F).

(** [update] has three exits. *)
Lemma update_cases s :
  update s =
    if balanced s then refresh s
    else if guard s then refresh s
    else applied s.
Proof. reflexivity. Qed.

Lemma update_balanced s : balanced s = true -> update s = refresh s.
Proof. intros E. rewrite update_cases, E. reflexivity. Qed.

Lemma update_guarded s : guard s = true -> update s = refresh s.
Proof.
  intros E. rewrite update_cases, E. destruct (balanced s); reflexivity.
Qed.

Lemma update_applied s :
  balanced s = false -> guard s = false -> update s = applied s.
Proof. intros E1 E2. rewrite update_cases, E1, E2. reflexivity. Qed.

(** [refresh] changes nothing when the [pressure] fields are in step with
    the heights. *)
Lemma refresh_fresh s : pressure_fresh s -> refresh s = s.
Proof.
  destruct s as [[] [] e]. unfold pressure_fresh, refresh. simpl.
  intros [-> ->]. reflexivity.
Qed.

Lemma refresh_idem s : refresh (refresh s) = refresh s.
Proof. reflexivity. Qed.

(** [refresh] leaves the heights alone, so the two tests of [update] come
    out on a refreshed state as they do on the state itself. *)
Lemma balanced_refresh s : balanced (refresh s) = balanced s.
Proof. reflexivity. Qed.

Lemma guard_refresh s : guard (refresh s) = guard s.
Proof. reflexivity. Qed.

Lemma ticks_succ n s : ticks (S n) s = update (ticks n s).
Proof.
  revert s. induction n as [|n IH]; intros s; [reflexivity|].
  change (ticks (S (S n)) s) with (ticks (S n) (update s)).
  rewrite IH. reflexivity.
Qed.

Lemma ticks_fixed s : update s = s -> forall n, ticks n s = s.
Proof.
  intros E n. induction n as [|n IH]; [reflexivity|].
  simpl. rewrite E. exact IH.
Qed.

(** C2.  When the two pressures differ and the guard does not trigger,
    [update] computes [h = LeftPressure / (gravity * density)] and
    [change = (small.height - h) / 2], adds [change] to [big.height] and to
    [h], writes [h - 0.5] and [big.height - 0.5] into the top edges of the
    small and the big container, and last sets [small.height] to
    [small.topLeft.y - small.bottomLeft.y]. *)
Theorem update_algorithm s :
  let LeftP :=
    fadd (fmul (fmul (height (big s)) gravity) density)
         (externalPressure s) in
  let rightP := fmul (fmul (height (small s)) gravity) density in
  let h := fdiv LeftP (fmul gravity density) in
  let chg := fdiv (fsub (height (small s)) h) (flit 20 10) in
  feqb LeftP rightP = false ->
  fltb (fadd (height (big s)) chg) (flit 0 10)
    || fltb (fadd h chg) (flit 0 10) = false ->
  let s' := update s in
  height (big s') = fadd (height (big s)) chg
  /\ glm.y (topLeft (small s')) = fsub (fadd h chg) (flit 5 10)
  /\ glm.y (topRight (small s')) = fsub (fadd h chg) (flit 5 10)
  /\ glm.y (topLeft (big s')) = fsub (height (big s')) (flit 5 10)
  /\ glm.y (topRight (big s')) = fsub (height (big s')) (flit 5 10)
  /\ height (small s') =
       fsub (glm.y (topLeft (small s'))) (glm.y (bottomLeft (small s')))
  /\ glm.y (bottomLeft (small s')) = glm.y (bottomLeft (small s))
  /\ pressure (big s') = fmul (fmul (height (big s)) gravity) density
  /\ pressure (small s') = fmul (fmul (height (small s)) gravity) density.
Proof.
  intros LeftP rightP h chg Hne Hguard s'.
  assert (E : s' = applied s) by (apply update_applied; assumption).
  rewrite E. repeat split.
Qed.

Lemma update_bottomLeft_small s :
  bottomLeft (small (update s)) = bottomLeft (small s).
Proof.
  rewrite update_cases.
  destruct (balanced s); [|destruct (guard s)]; reflexivity.
Qed.

(** C10.  [update] never writes [externalPressure], a [width], a bottom
    corner, or the x-coordinate of a top corner. *)
Theorem update_frame s :
  externalPressure (update s) = externalPressure s
  /\ width (big (update s)) = width (big s)
  /\ width (small (update s)) = width (small s)
  /\ bottomLeft (big (update s)) = bottomLeft (big s)
  /\ bottomRight (big (update s)) = bottomRight (big s)
  /\ bottomLeft (small (update s)) = bottomLeft (small s)
  /\ bottomRight (small (update s)) = bottomRight (small s)
  /\ glm.x (topLeft (big (update s))) = glm.x (topLeft (big s))
  /\ glm.x (topRight (big (update s))) = glm.x (topRight (big s))
  /\ glm.x (topLeft (small (update s))) = glm.x (topLeft (small s))
  /\ glm.x (topRight (small (update s))) = glm.x (topRight (small s)).
Proof.
  rewrite update_cases.
  destruct (balanced s); [|destruct (guard s)]; repeat split.
Qed.

(** *** Width *)

Lemma update_with_widths wb ws s :
  update (with_widths wb ws s) = with_widths wb ws (update s).
Proof.
  rewrite !update_cases.
  change (balanced (with_widths wb ws s)) with (balanced s).
  change (guard (with_widths wb ws s)) with (guard s).
  destruct (balanced s); [|destruct (guard s)]; reflexivity.
Qed.

Lemma key_callback_with_widths key scancode action mods wb ws s :
  key_callback key scancode action mods (with_widths wb ws s)
  = with_widths wb ws (key_callback key scancode action mods s).
Proof.
  unfold key_callback.
  destruct (_ && _); destruct (_ && _); reflexivity.
Qed.

Lemma run_with_widths tr : forall wb ws s,
  run tr (with_widths wb ws s) = with_widths wb ws (run tr s).
Proof.
  induction tr as [|e tr IH]; intros wb ws s; [reflexivity|].
  simpl. destruct e as [|key scancode action mods]; simpl.
  - rewrite update_with_widths. apply IH.
  - rewrite key_callback_with_widths. apply IH.
Qed.

(** C7.  [update] never reads a [width]: two runs of the same events
    (ticks and key events in any order) from states that differ only in
    the widths agree on the heights, the pressures, the top-edge
    y-coordinates and [externalPressure], and still differ only in the
    widths; the pressure [update] stores is [height * gravity * density]. *)
Theorem width_noninterference s1 s2 (tr : list event) :
  same_but_width s1 s2 ->
  let r1 := run tr s1 in
  let r2 := run tr s2 in
  height (big r1) = height (big r2)
  /\ height (small r1) = height (small r2)
  /\ pressure (big r1) = pressure (big r2)
  /\ pressure (small r1) = pressure (small r2)
  /\ glm.y (topLeft (big r1)) = glm.y (topLeft (big r2))
  /\ glm.y (topRight (big r1)) = glm.y (topRight (big r2))
  /\ glm.y (topLeft (small r1)) = glm.y (topLeft (small r2))
  /\ glm.y (topRight (small r1)) = glm.y (topRight (small r2))
  /\ externalPressure r1 = externalPressure r2
  /\ same_but_width r1 r2
  /\ pressure (big (update s1)) =
       fmul (fmul (height (big s1)) gravity) density
  /\ pressure (small (update s1)) =
       fmul (fmul (height (small s1)) gravity) density.
Proof.
  intros (wb & ws & ->) r1 r2. subst r1 r2.
  rewrite run_with_widths.
  repeat split; try (exists wb, ws; reflexivity);
    rewrite update_cases;
    destruct (balanced s1); [|destruct (guard s1)| |destruct (guard s1)];
    reflexivity.
Qed.

(** *** The keyboard *)

Lemma key_callback_containers key scancode action mods s :
  big (key_callback key scancode action mods s) = big s
  /\ small (key_callback key scancode action mods s) = small s.
Proof.
  unfold key_callback.
  destruct (_ && _); destruct (_ && _); split; reflexivity.
Qed.


End ControlFlow.

(** * Properties of the exact instance *)

Module ExactFacts.

Import Exact.
Local Open Scope Q_scope.

Implicit Types (s : state Q).

(** Unfolds the quantities of [update] down to rational arithmetic on the
    fields of the state and replaces the constant divisors by their
    inverses. *)
Ltac qnorm :=
  unfold pressure_gap, stored_gap, LeftPressure, rightPressure, applied,
    refresh, change, target_h, LeftPressure, hydrostatic, gravity, density
    in *;
  cbn [fadd fsub fmul fdiv flit exact height width bottomLeft bottomRight
       topLeft topRight pressure big small externalPressure glm.x glm.y
       set_y set_pressure] in *;
  unfold Qdiv in *;
  change (/ ((98 # 10) * (10 # 10))) with (100 # 980) in *;
  change (/ (20 # 10)) with (10 # 20) in *.

Lemma balanced_iff s :
  balanced s = true <-> LeftPressure s == rightPressure s.
Proof. apply Qeq_bool_iff. Qed.

Lemma fltb_false (a b : Q) : fltb a b = false <-> b <= a.
Proof.
  cbn [fltb exact]. rewrite negb_false_iff. apply Qle_bool_iff.
Qed.

Lemma guard_false_iff s :
  guard s = false <->
  0 <= height (big s) + change s /\ 0 <= target_h s + change s.
Proof.
  unfold guard. rewrite orb_false_iff, !fltb_false.
  cbn [flit exact fadd].
  assert (E : 0 # 10 == 0) by reflexivity.
  rewrite !E. tauto.
Qed.

(** The heights after a tick that reaches the last line. *)
Lemma applied_heights s :
  glm.y (bottomLeft (small s)) == - (1 # 2) ->
  height (big (applied s)) == height (big s) + change s
  /\ height (small (applied s)) == target_h s + change s.
Proof.
  intros G. destruct s as [[bh bw bbl bbr btl btr bp]
                           [sh sw sbl sbr stl str sp] e].
  qnorm. rewrite G. split; ring.
Qed.

(** One tick that reaches the last line balances the pressures. *)
Lemma applied_balanced s :
  glm.y (bottomLeft (small s)) == - (1 # 2) ->
  LeftPressure (applied s) == rightPressure (applied s).
Proof.
  intros G. destruct s as [[bh bw bbl bbr btl btr bp]
                           [sh sw sbl sbr stl str sp] e].
  qnorm. rewrite G. ring.
Qed.

Lemma update_valid s : valid s -> valid (update s).
Proof.
  intros (Hb & Hs & G). rewrite update_cases.
  destruct (balanced s) eqn:Eb; [exact (conj Hb (conj Hs G))|].
  destruct (guard s) eqn:Eg; [exact (conj Hb (conj Hs G))|].
  apply guard_false_iff in Eg. destruct Eg as [H1 H2].
  destruct (applied_heights s G) as [E1 E2].
  repeat split.
  - rewrite E1. exact H1.
  - rewrite E2. exact H2.
  - exact G.
Qed.

Lemma setup_valid : valid setup.
Proof. repeat split; vm_compute; congruence. Qed.

Lemma reachable_valid s : reachable s -> valid s.
Proof.
  induction 1 as [|s _ IH|s key scancode action mods _ IH|s delta _ IH].
  - exact setup_valid.
  - apply update_valid, IH.
  - unfold valid in *.
    destruct (key_callback_containers key scancode action mods s)
      as [-> ->].
    exact IH.
  - exact IH.
Qed.

Lemma reachable_heights s :
  reachable s -> 0 <= height (big s) /\ 0 <= height (small s).
Proof.
  intros R. destruct (reachable_valid R) as (Hb & Hs & _).
  split; assumption.
Qed.

Lemma ticks_valid s n : valid s -> valid (ticks n s).
Proof.
  intros V. induction n as [|n IH]; [exact V|].
  rewrite ticks_succ. apply update_valid, IH.
Qed.

Lemma externalPressure_update s :
  externalPressure (update s) = externalPressure s.
Proof.
  rewrite update_cases.
  destruct (balanced s); [|destruct (guard s)]; reflexivity.
Qed.

Lemma externalPressure_ticks s n :
  externalPressure (ticks n s) = externalPressure s.
Proof.
  induction n as [|n IH]; [reflexivity|].
  rewrite ticks_succ, externalPressure_update. exact IH.
Qed.

(** C9.  In exact arithmetic a tick that changes the heights leaves the
    two sides in balance, [big.height * gravity * density +
    externalPressure == small.height * gravity * density], so the tick
    after it (same [externalPressure]) returns at the equality test. *)
Theorem one_tick_equilibrium s :
  reachable s ->
  balanced s = false ->
  guard s = false ->
  fadd (fmul (fmul (height (big (update s))) gravity) density)
       (externalPressure (update s))
    == fmul (fmul (height (small (update s))) gravity) density
  /\ externalPressure (update s) = externalPressure s
  /\ balanced (update s) = true
  /\ update (update s) = refresh (update s).
Proof.
  intros R Eb Eg.
  destruct (reachable_valid R) as (_ & _ & G).
  assert (B : LeftPressure (update s) == rightPressure (update s)).
  { rewrite (update_applied s Eb Eg). apply applied_balanced, G. }
  assert (B' : balanced (update s) = true) by (apply balanced_iff, B).
  split; [exact B|]. split; [apply externalPressure_update|].
  split; [exact B'|]. apply update_balanced, B'.
Qed.

(** With no external pressure a valid state is never guarded, and one
    tick closes the gap. *)
Lemma free_tick_closes_gap s :
  valid s -> externalPressure s == 0 -> pressure_gap (update s) == 0.
Proof.
  intros (Hb & Hs & G) E. rewrite update_cases.
  destruct (balanced s) eqn:Eb.
  - apply balanced_iff in Eb.
    destruct s as [[bh bw bbl bbr btl btr bp]
                   [sh sw sbl sbr stl str sp] e].
    qnorm. rewrite E in Eb.
    setoid_replace (bh * (98 # 10) * (10 # 10) - sh * (98 # 10) * (10 # 10))
      with 0 by lra.
    reflexivity.
  - assert (Eg : guard s = false).
    { apply guard_false_iff.
      destruct s as [[bh bw bbl bbr btl btr bp]
                     [sh sw sbl sbr stl str sp] e].
      qnorm. rewrite E. split; lra. }
    rewrite Eg.
    pose proof (applied_balanced s G) as B.
    assert (Ee : externalPressure (applied s) == 0) by exact E.
    destruct (applied s) as [[bh bw bbl bbr btl btr bp]
                             [sh sw sbl sbr stl str sp] e].
    qnorm. rewrite Ee in B.
    setoid_replace (bh * (98 # 10) * (10 # 10) - sh * (98 # 10) * (10 # 10))
      with 0 by lra.
    reflexivity.
Qed.

(** The [pressure] fields after a tick are the hydrostatic pressures
    before it. *)
Lemma stored_gap_update s : stored_gap (update s) = pressure_gap s.
Proof.
  rewrite update_cases.
  destruct (balanced s); [|destruct (guard s)]; reflexivity.
Qed.

Lemma fresh_gap s : fresh s -> stored_gap s == pressure_gap s.
Proof.
  intros [E1 E2]. unfold stored_gap, pressure_gap. rewrite E1, E2.
  reflexivity.
Qed.


(** From the initial heights, an external pressure below [-9.8] (minus
    the hydrostatic pressure of a full unit of height) makes the guard
    trigger, and the tick changes nothing. *)
Lemma strong_pull_refused (e : Q) :
  e < - (98 # 10) ->
  guard (with_externalPressure setup e) = true
  /\ update (with_externalPressure setup e) = with_externalPressure setup e.
Proof.
  intros He.
  assert (G : guard (with_externalPressure setup e) = true).
  { unfold guard. apply orb_true_iff. right.
    cbn [fltb exact]. apply negb_true_iff.
    destruct (Qle_bool _ _) eqn:E; [|reflexivity].
    apply Qle_bool_iff in E. exfalso. revert E.
    qnorm. unfold with_externalPressure, setup, setup_big, setup_small.
    qnorm. lra. }
  split; [exact G|].
  rewrite (update_guarded _ G). apply refresh_fresh.
  split; reflexivity.
Qed.

End ExactFacts.

(** * Properties of the binary32 instance *)

Module B32Facts.

Local Open Scope Z_scope.

(** ** Shifting and rounding in [SpecFloat] *)

(** [iter_pos] iterates as many times as its binary argument says. *)
Lemma iter_pos_nat {A} (f : A -> A) p : forall x,
  iter_pos f p x = Nat.iter (Pos.to_nat p) f x.
Proof.
  induction p as [p IH|p IH|]; intros x; cbn [iter_pos].
  - rewrite !IH, Pos2Nat.inj_xI.
    change (S (2 * Pos.to_nat p)) with (1 + 2 * Pos.to_nat p)%nat.
    replace (1 + 2 * Pos.to_nat p)%nat
      with (Pos.to_nat p + (Pos.to_nat p + 1))%nat by lia.
    rewrite Nat.iter_add, Nat.iter_add. reflexivity.
  - rewrite !IH, Pos2Nat.inj_xO.
    replace (2 * Pos.to_nat p)%nat
      with (Pos.to_nat p + Pos.to_nat p)%nat by lia.
    rewrite Nat.iter_add. reflexivity.
  - reflexivity.
Qed.

(** A right shift by [n] bits divides the mantissa by [2 ^ n] (rounding
    down) and adds [n] to the exponent. *)
Lemma shr_1_m r : 0 <= shr_m r -> shr_m (shr_1 r) = shr_m r / 2.
Proof.
  destruct r as [m r s]. cbn [shr_m]. intros H.
  destruct m as [|p|p]; [reflexivity| |lia].
  destruct p as [p|p|]; cbn [shr_1 shr_m].
  - rewrite Pos2Z.inj_xI. apply Z.div_unique with 1; lia.
  - rewrite Pos2Z.inj_xO. apply Z.div_unique with 0; lia.
  - reflexivity.
Qed.

Lemma iter_shr_1_m n : forall r, 0 <= shr_m r ->
  shr_m (Nat.iter n shr_1 r) = shr_m r / 2 ^ Z.of_nat n.
Proof.
  induction n as [|n IH]; intros r H.
  - change (2 ^ Z.of_nat 0) with 1. rewrite Z.div_1_r. reflexivity.
  - change (Nat.iter (S n) shr_1 r) with (shr_1 (Nat.iter n shr_1 r)).
    rewrite shr_1_m.
    + rewrite IH by exact H. rewrite Nat2Z.inj_succ, Z.pow_succ_r by lia.
      rewrite Z.div_div by lia. f_equal. lia.
    + rewrite IH by exact H.
      apply Z.div_pos; [exact H|]. apply Z.pow_pos_nonneg; lia.
Qed.

Lemma shr_spec m r s e n : 0 <= m ->
  shr_m (fst (shr (Build_shr_record m r s) e n)) = m / 2 ^ Z.max n 0
  /\ snd (shr (Build_shr_record m r s) e n) = e + Z.max n 0.
Proof.
  intros H. destruct n as [|p|p]; cbn [shr fst snd].
  - cbn. rewrite Z.div_1_r. split; [reflexivity|lia].
  - rewrite iter_pos_nat, iter_shr_1_m by exact H. cbn [shr_m].
    rewrite positive_nat_Z, Z.max_l by lia. split; reflexivity.
  - cbn. rewrite Z.div_1_r. split; [reflexivity|lia].
Qed.

(** The number of binary digits of a mantissa. *)
Lemma digits2_pos_bounds p :
  2 ^ (Zpos (digits2_pos p) - 1) <= Zpos p < 2 ^ Zpos (digits2_pos p).
Proof.
  induction p as [p IH|p IH|]; cbn [digits2_pos].
  - rewrite Pos2Z.inj_succ.
    replace (Z.succ (Zpos (digits2_pos p)) - 1)
      with (Z.succ (Zpos (digits2_pos p) - 1)) by lia.
    rewrite !Z.pow_succ_r by lia.
    generalize dependent (2 ^ (Z.pos (digits2_pos p) - 1)).
    generalize dependent (2 ^ (Z.pos (digits2_pos p))). lia.
  - rewrite Pos2Z.inj_succ.
    replace (Z.succ (Zpos (digits2_pos p)) - 1)
      with (Z.succ (Zpos (digits2_pos p) - 1)) by lia.
    rewrite !Z.pow_succ_r by lia.
    generalize dependent (2 ^ (Z.pos (digits2_pos p) - 1)).
    generalize dependent (2 ^ (Z.pos (digits2_pos p))). lia.
  - cbn. lia.
Qed.

Lemma rne_bounds m l : m <= round_nearest_even m l <= m + 1.
Proof.
  destruct l as [|[]]; cbn [round_nearest_even]; try lia.
  destruct (Z.even m); lia.
Qed.

Lemma digits_le_of_lt p k :
  0 <= k -> Zpos p < 2 ^ k -> Zpos (digits2_pos p) <= k.
Proof.
  intros Hk H. destruct (digits2_pos_bounds p) as [L _].
  assert (P : 2 ^ (Zpos (digits2_pos p) - 1) < 2 ^ k) by lia.
  apply Z.pow_lt_mono_r_iff in P; lia.
Qed.

Lemma Zdigits2_le m k : 0 <= k -> 0 <= m <= 2 ^ k -> Zdigits2 m <= k + 1.
Proof.
  intros Hk [H0 H]. destruct m as [|p|p]; cbn [Zdigits2]; [lia| |lia].
  destruct (digits2_pos_bounds p) as [L _].
  assert (P : 2 ^ (Zpos (digits2_pos p) - 1) <= 2 ^ k) by lia.
  apply Z.pow_le_mono_r_iff in P; lia.
Qed.

Lemma div_pow_lt a j k :
  0 <= j -> 0 <= k -> a < 2 ^ (j + k) -> a / 2 ^ k < 2 ^ j.
Proof.
  intros Hj Hk H. apply Z.div_lt_upper_bound.
  - apply Z.pow_pos_nonneg; lia.
  - rewrite <- Z.pow_add_r by lia. rewrite Z.add_comm. exact H.
Qed.

Lemma div_pow_le a j k :
  0 <= j -> 0 <= k -> a <= 2 ^ (j + k) -> a / 2 ^ k <= 2 ^ j.
Proof.
  intros Hj Hk H. apply Z.div_le_upper_bound.
  - apply Z.pow_pos_nonneg; lia.
  - rewrite <- Z.pow_add_r by lia. rewrite Z.add_comm. exact H.
Qed.

(** Rounding a magnitude [mz * 2 ^ ez] below one half gives a zero or a
    finite number of magnitude at most one half: the shift rounds down
    and rounding to nearest adds at most one unit. *)
Lemma round_aux_small sx mz ez :
  ez <= -1 -> Zpos mz < 2 ^ (-1 - ez) ->
  B32.at_most_half sx (binary_round_aux 24 128 sx (Zpos mz) ez loc_Exact).
Proof.
  intros He Hm. unfold binary_round_aux, shr_fexp.
  cbn [shr_record_of_loc Zdigits2].
  assert (Hd : Zpos (digits2_pos mz) <= -1 - ez)
    by (apply digits_le_of_lt; lia).
  set (n := fexp 24 128 (Zpos (digits2_pos mz) + ez) - ez).
  assert (Hn : ez + Z.max n 0 <= -1) by (unfold n, fexp, emin; lia).
  destruct (@shr_spec (Zpos mz) false false ez n (Pos2Z.is_nonneg mz))
    as [S1 S2].
  destruct (shr {| shr_m := Zpos mz; shr_r := false; shr_s := false |} ez n)
    as [mrs' e'] eqn:E1.
  cbn [fst snd] in S1, S2.
  set (m2 := round_nearest_even (shr_m mrs') (loc_of_shr_record mrs')).
  assert (H1 : 0 <= shr_m mrs' < 2 ^ (-1 - e')).
  { rewrite S1, S2. split.
    - apply Z.div_pos; [lia|]. apply Z.pow_pos_nonneg; lia.
    - apply div_pow_lt; try lia.
      replace (-1 - (ez + Z.max n 0) + Z.max n 0) with (-1 - ez) by lia.
      exact Hm. }
  assert (H2 : 0 <= m2 <= 2 ^ (-1 - e')).
  { pose proof (rne_bounds (shr_m mrs') (loc_of_shr_record mrs')) as B.
    fold m2 in B. lia. }
  assert (He' : e' <= -1) by lia.
  assert (Hd2 : Zdigits2 m2 <= - e')
    by (pose proof (@Zdigits2_le m2 (-1 - e')); lia).
  set (n2 := fexp 24 128 (Zdigits2 m2 + e') - e').
  assert (Hn2 : e' + Z.max n2 0 <= -1) by (unfold n2, fexp, emin; lia).
  destruct (@shr_spec m2 false false e' n2 (proj1 H2)) as [S3 S4].
  destruct (shr {| shr_m := m2; shr_r := false; shr_s := false |} e' n2)
    as [mrs'' e''] eqn:E2.
  cbn [fst snd] in S3, S4.
  assert (H3 : 0 <= shr_m mrs'' <= 2 ^ (-1 - e'')).
  { rewrite S3, S4. split.
    - apply Z.div_pos; [lia|]. apply Z.pow_pos_nonneg; lia.
    - apply div_pow_le; try lia.
      replace (-1 - (e' + Z.max n2 0) + Z.max n2 0) with (-1 - e') by lia.
      lia. }
  destruct (shr_m mrs'') as [|m3|m3]; cbn [B32.at_most_half].
  - reflexivity.
  - replace (e'' <=? 128 - 24) with true by (symmetry; apply Z.leb_le; lia).
    cbn [B32.at_most_half]. split; [reflexivity|]. split; lia.
  - lia.
Qed.

(** Aligning two mantissas on the smaller exponent. *)
Lemma iter_xO m d : Zpos (Pos.iter xO m d) = Zpos m * 2 ^ Zpos d.
Proof.
  induction d as [|d IH] using Pos.peano_ind.
  - cbn [Pos.iter]. change (2 ^ 1) with 2. lia.
  - rewrite Pos.iter_succ, Pos2Z.inj_xO, IH, Pos2Z.inj_succ.
    rewrite Z.pow_succ_r by lia. ring.
Qed.

Lemma shl_align_spec mx ex ex' :
  snd (shl_align mx ex ex') = Z.min ex ex'
  /\ Zpos (fst (shl_align mx ex ex')) = Zpos mx * 2 ^ (ex - Z.min ex ex').
Proof.
  unfold shl_align. destruct (ex' - ex) as [|d|d] eqn:E; cbn [fst snd].
  - replace (Z.min ex ex') with ex by lia. rewrite Z.sub_diag.
    split; [reflexivity|]. cbn. lia.
  - replace (Z.min ex ex') with ex by lia. rewrite Z.sub_diag.
    split; [reflexivity|]. cbn. lia.
  - replace (Z.min ex ex') with ex' by lia. split; [reflexivity|].
    rewrite iter_xO. f_equal. f_equal. lia.
Qed.

Lemma binary_round_small sx mx ex :
  ex <= -1 -> Zpos mx < 2 ^ (-1 - ex) ->
  B32.at_most_half sx (binary_round 24 128 sx mx ex).
Proof.
  intros He Hm. unfold binary_round.
  destruct (shl_align_spec mx ex (fexp 24 128 (Zpos (digits2_pos mx) + ex)))
    as [S1 S2].
  destruct (shl_align mx ex _) as [mz ez]. cbn [fst snd] in S1, S2.
  rewrite <- S1 in S2.
  apply round_aux_small; [lia|].
  rewrite S2.
  replace (-1 - ez) with ((-1 - ex) + (ex - ez)) by lia.
  rewrite Z.pow_add_r by lia.
  apply Zmult_lt_compat_r; [apply Z.pow_pos_nonneg; lia|exact Hm].
Qed.

(** Rounding keeps the sign it is given. *)
Lemma round_aux_sign sx mx ex lx :
  B32.sign_is sx (binary_round_aux 24 128 sx mx ex lx).
Proof.
  unfold binary_round_aux.
  destruct (shr_fexp 24 128 mx ex lx) as [mrs' e'].
  destruct (shr_fexp 24 128 _ e' loc_Exact) as [mrs'' e''].
  destruct (shr_m mrs''); [reflexivity| |exact I].
  destruct (e'' <=? 128 - 24); reflexivity.
Qed.

Lemma binary_normalize_sign z e : 0 <= z ->
  B32.sign_is false (binary_normalize 24 128 z e false).
Proof.
  intros H. destruct z as [|p|p]; cbn [binary_normalize]; [reflexivity| |lia].
  unfold binary_round. destruct (shl_align p e _). apply round_aux_sign.
Qed.

Lemma sign_is_not_negative r :
  B32.sign_is false r -> SFltb r B32.zero = false.
Proof.
  destruct r as [s|s| |s m e]; cbn; intros H; try rewrite H; reflexivity.
Qed.

Lemma aligned_half ez : ez <= -24 ->
  Zpos (fst (shl_align 8388608 (-24) ez)) = 2 ^ (-1 - ez).
Proof.
  intros H. destruct (shl_align_spec 8388608 (-24) ez) as [_ S2].
  rewrite S2. replace (Z.min (-24) ez) with ez by lia.
  change (Zpos 8388608) with (2 ^ 23). rewrite <- Z.pow_add_r by lia.
  f_equal. lia.
Qed.

(** [r - (-0.5f)] is not negative when [r] is not negative, and when [r]
    is negative of magnitude at most one half. *)
Lemma add_back_of_nonneg r :
  B32.sign_is false r ->
  B32.sign_is false (SFsub 24 128 r B32.minus_half).
Proof.
  destruct r as [s|s| |s m e]; cbn [B32.sign_is]; intros H.
  - reflexivity.
  - subst s. reflexivity.
  - exact I.
  - subst s. unfold B32.minus_half; cbn [SFsub cond_Zopp].
    apply binary_normalize_sign. lia.
Qed.

Lemma add_back_of_small r :
  B32.at_most_half true r ->
  B32.sign_is false (SFsub 24 128 r B32.minus_half).
Proof.
  destruct r as [s|s| |s m e]; cbn [B32.at_most_half]; intros H;
    try contradiction.
  - subst s. reflexivity.
  - destruct H as (-> & He & Hm).
    unfold B32.minus_half; cbn [SFsub cond_Zopp]. apply binary_normalize_sign.
    set (ez := Z.min e (-24)).
    rewrite aligned_half by (unfold ez; lia).
    destruct (shl_align_spec m e ez) as [_ S2].
    replace (Z.min e ez) with ez in S2 by (unfold ez; lia).
    rewrite S2.
    assert (B : Zpos m * 2 ^ (e - ez) <= 2 ^ (-1 - ez)).
    { replace (-1 - ez) with ((-1 - e) + (e - ez)) by lia.
      rewrite Z.pow_add_r by (unfold ez; lia).
      apply Zmult_le_compat_r; [exact Hm|apply Z.pow_nonneg; lia]. }
    lia.
Qed.

(** The re-derivation of [small.height]: for every [float] [x] that does
    not compare below zero (NaN and infinity included),
    [(x - 0.5f) - (-0.5f)] does not compare below zero either. *)
Lemma sub_half_add_half x :
  SFltb x B32.zero = false ->
  SFltb (SFsub 24 128 (SFsub 24 128 x B32.half) B32.minus_half) B32.zero
  = false.
Proof.
  intros Hx. apply sign_is_not_negative.
  destruct x as [s|s| |s m e].
  - destruct s; vm_compute; reflexivity.
  - destruct s; [discriminate Hx|reflexivity].
  - exact I.
  - destruct s; [discriminate Hx|].
    unfold B32.half; cbn [SFsub cond_Zopp].
    set (ez := Z.min e (-24)).
    rewrite aligned_half by (unfold ez; lia).
    destruct (Zpos (fst (shl_align m e ez)) - 2 ^ (-1 - ez)) as [|p|p] eqn:E;
      cbn [binary_normalize].
    + reflexivity.
    + apply add_back_of_nonneg. unfold binary_round.
      destruct (shl_align p ez _). apply round_aux_sign.
    + apply add_back_of_small. apply binary_round_small; [unfold ez; lia|].
      pose proof (Pos2Z.is_pos (fst (shl_align m e ez))). lia.
Qed.

(** ** The heights in binary32 *)

Implicit Types (s : state B32.float).

Lemma flit_values :
  flit 0 10 = B32.zero /\ flit 5 10 = B32.half
  /\ flit (-5) 10 = B32.minus_half.
Proof. repeat split. Qed.

(** The literals [9.8f], [1.0f] and [0.1f] are the floats with bit
    patterns [0x411CCCCD], [0x3F800000] and [0x3DCCCCCD]. *)
Lemma literal_bits :
  gravity = S754_finite false 0x9CCCCD (-20)
  /\ density = S754_finite false 0x800000 (-23)
  /\ flit 1 10 = S754_finite false 0xCCCCCD (-27).
Proof. repeat split. Qed.

(** [update] keeps both heights from comparing below [0.0f], as long as
    the bottom edge of the small container is at [-0.5f]. *)
Lemma update_not_negative s :
  fltb (height (big s)) (flit 0 10) = false ->
  fltb (height (small s)) (flit 0 10) = false ->
  glm.y (bottomLeft (small s)) = flit (-5) 10 ->
  fltb (height (big (update s))) (flit 0 10) = false
  /\ fltb (height (small (update s))) (flit 0 10) = false.
Proof.
  intros Hb Hs G. rewrite update_cases.
  destruct (balanced s); [split; assumption|].
  destruct (guard s) eqn:Eg; [split; assumption|].
  unfold guard in Eg. apply orb_false_iff in Eg. destruct Eg as [E1 E2].
  split; [exact E1|].
  cbn [applied small height]. rewrite G.
  exact (sub_half_add_half _ E2).
Qed.

Lemma reachable_not_negative s :
  reachable s ->
  fltb (height (big s)) (flit 0 10) = false
  /\ fltb (height (small s)) (flit 0 10) = false
  /\ glm.y (bottomLeft (small s)) = flit (-5) 10.
Proof.
  induction 1 as [|s _ IH|s key scancode action mods _ IH|s delta _ IH].
  - repeat split.
  - destruct IH as (Hb & Hs & G).
    destruct (update_not_negative s Hb Hs G) as [Hb' Hs'].
    split; [exact Hb'|]. split; [exact Hs'|].
    rewrite update_bottomLeft_small. exact G.
  - destruct (key_callback_containers key scancode action mods s)
      as [-> ->].
    exact IH.
  - exact IH.
Qed.

(** Rounding shows in the second tick.  After one press of space and one
    tick the two pressures still differ in the last bit, so the next tick
    does not return at the equality test; its [change] is zero and the
    heights stay as they are. *)
Remark second_tick_in_binary32 :
  let s1 := update (Scenario.space binary32 (Scenario.init binary32)) in
  balanced s1 = false
  /\ guard s1 = false
  /\ change s1 = B32.zero
  /\ height (big (update s1)) = height (big s1)
  /\ height (small (update s1)) = height (small s1).
Proof. repeat split. Qed.

End B32Facts.

(** * Non-negative heights *)


(** * The early returns of [update] *)

(** Key events keep a state reachable. *)
Lemma reachable_iter_key {F : Type} {ops : FloatOps F}
      (key scancode action mods : Z) (n : nat) (s : state F) :
  reachable s ->
  reachable (Nat.iter n (key_callback key scancode action mods) s).
Proof.
  intros R. induction n as [|n IH]; [exact R|].
  cbn [Nat.iter]. apply reach_key, IH.
Qed.

Lemma reachable_back_in_balance {F : Type} (ops : FloatOps F) :
  reachable (Scenario.back_in_balance ops).
Proof.
  unfold Scenario.back_in_balance, Scenario.shift, Scenario.space.
  apply reach_tick, reach_key, reach_tick, reach_key, reach_setup.
Qed.

Lemma reachable_pulled_hard {F : Type} (ops : FloatOps F) :
  reachable (Scenario.pulled_hard ops).
Proof.
  unfold Scenario.pulled_hard.
  apply (reachable_iter_key GLFW_KEY_LEFT_SHIFT 0 GLFW_PRESS 0).
  apply reach_tick, reach_key, reach_setup.
Qed.

(** C4, as stated, fails: after space, a tick, left shift and a tick the
    program is in balance, yet the next tick rewrites both [pressure]
    fields (in binary32 and in exact arithmetic alike). *)
Lemma balanced_tick_rewrites_pressure :
  let s := Scenario.back_in_balance binary32 in
  let q := Scenario.back_in_balance exact in
  (reachable s
   /\ balanced s = true
   /\ update s <> s)
  /\ (reachable q
      /\ balanced q = true
      /\ ~ (pressure (big (update q)) == pressure (big q))%Q).
Proof.
  intros s q. split.
  - split; [exact (reachable_back_in_balance binary32)|].
    split; [vm_compute; reflexivity|].
    intros E. apply (f_equal (fun t => pressure (big t))) in E.
    vm_compute in E. discriminate E.
  - split; [exact (reachable_back_in_balance exact)|].
    split; [vm_compute; reflexivity|].
    vm_compute. discriminate.
Qed.

(** C4, amended.  When [LeftPressure == rightPressure], [update] changes
    nothing but the two [pressure] fields, which it sets to
    [height * gravity * density]; when they hold these values already the
    state is unchanged, and so the first tick after [setup] is a no-op
    (in binary32 and in exact arithmetic). *)
Theorem balanced_tick_refreshes_pressure_only :
  (forall (F : Type) (ops : FloatOps F) (s : state F),
      balanced s = true ->
      update s = refresh s /\ (pressure_fresh s -> update s = s))
  /\ balanced (Scenario.init binary32) = true
  /\ update (Scenario.init binary32) = Scenario.init binary32
  /\ balanced (Scenario.init exact) = true
  /\ update (Scenario.init exact) = Scenario.init exact.
Proof.
  split; [|split; [|split; [|split]]]; try (vm_compute; reflexivity).
  intros F ops s E. split.
  - apply update_balanced, E.
  - intros Fr. rewrite (update_balanced s E). apply refresh_fresh, Fr.
Qed.

(** C5, as stated, fails: after space, a tick and two hundred left
    shifts the guard triggers, yet the tick rewrites both [pressure]
    fields (in binary32 and in exact arithmetic alike). *)
Lemma guarded_tick_rewrites_pressure :
  let s := Scenario.pulled_hard binary32 in
  let q := Scenario.pulled_hard exact in
  (reachable s
   /\ balanced s = false
   /\ guard s = true
   /\ update s <> s)
  /\ (reachable q
      /\ balanced q = false
      /\ guard q = true
      /\ ~ (pressure (big (update q)) == pressure (big q))%Q).
Proof.
  intros s q. split.
  - split; [exact (reachable_pulled_hard binary32)|].
    split; [vm_compute; reflexivity|]. split; [vm_compute; reflexivity|].
    intros E. apply (f_equal (fun t => pressure (big t))) in E.
    vm_compute in E. discriminate E.
  - split; [exact (reachable_pulled_hard exact)|].
    split; [vm_compute; reflexivity|]. split; [vm_compute; reflexivity|].
    vm_compute. discriminate.
Qed.

(** C5, amended.  When the guard triggers, [update] changes nothing but
    the two [pressure] fields (nothing at all when they are in step with
    the heights); on the state it leaves, the pressures still differ, the
    guard triggers again, and a second tick changes nothing. *)
Theorem guarded_tick_is_stable {F : Type} {ops : FloatOps F} (s : state F) :
  balanced s = false ->
  guard s = true ->
  update s = refresh s
  /\ (pressure_fresh s -> update s = s)
  /\ balanced (update s) = false
  /\ guard (update s) = true
  /\ update (update s) = update s.
Proof.
  intros Eb Eg.
  assert (E : update s = refresh s) by (apply update_guarded, Eg).
  rewrite E. split; [reflexivity|]. split; [apply refresh_fresh|].
  rewrite balanced_refresh, guard_refresh.
  split; [exact Eb|]. split; [exact Eg|].
  rewrite update_guarded by (rewrite guard_refresh; exact Eg).
  apply refresh_idem.
Qed.



(** * The theorems at concrete states *)

Module Concrete.

Import Exact.


(** Binary32: the first tick after one press of space. *)
Lemma update_algorithm_after_space :
  let s := Scenario.space binary32 (Scenario.init binary32) in
  balanced s = false
  /\ guard s = false
  /\ height (big (update s)) = fadd (height (big s)) (change s)
  /\ height (small (update s)) =
       fsub (glm.y (topLeft (small (update s))))
            (glm.y (bottomLeft (small (update s)))).
Proof.
  intros s.
  assert (Eb : balanced s = false) by (vm_compute; reflexivity).
  assert (Eg : guard s = false) by (vm_compute; reflexivity).
  split; [exact Eb|]. split; [exact Eg|].
  destruct (update_algorithm s Eb Eg) as (H1 & _ & _ & _ & _ & H6 & _).
  split; [exact H1 | exact H6].
Defined.


Lemma balanced_tick_at_back_in_balance :
  let s := Scenario.back_in_balance binary32 in
  balanced s = true /\ update s = refresh s.
Proof.
  intros s.
  assert (E : balanced s = true) by (vm_compute; reflexivity).
  split; [exact E|].
  exact (proj1 (proj1 balanced_tick_refreshes_pressure_only _ _ s E)).
Defined.

Lemma guarded_tick_at_pulled_hard :
  let s := Scenario.pulled_hard binary32 in
  balanced s = false
  /\ guard s = true
  /\ guard (update s) = true
  /\ update (update s) = update s.
Proof.
  intros s.
  assert (Eb : balanced s = false) by (vm_compute; reflexivity).
  assert (Eg : guard s = true) by (vm_compute; reflexivity).
  split; [exact Eb|]. split; [exact Eg|].
  destruct (guarded_tick_is_stable s Eb Eg) as (_ & _ & _ & H4 & H5).
  split; [exact H4 | exact H5].
Defined.


Lemma width_noninterference_swapped :
  let s1 := Scenario.init binary32 in
  let s2 := with_widths (flit 25 100) (flit 5 10) s1 in
  let tr := [Key GLFW_KEY_SPACE 0 GLFW_PRESS 0; Tick; Tick] in
  same_but_width s1 s2
  /\ height (big (run tr s1)) = height (big (run tr s2))
  /\ height (small (run tr s1)) = height (small (run tr s2)).
Proof.
  intros s1 s2 tr.
  assert (W : same_but_width s1 s2)
    by (exists (flit 25 100), (flit 5 10); reflexivity).
  split; [exact W|].
  destruct (width_noninterference tr W) as (H1 & H2 & _).
  split; [exact H1 | exact H2].
Defined.


Lemma one_tick_equilibrium_after_space :
  let s := Scenario.space exact (Scenario.init exact) in
  reachable s
  /\ balanced s = false
  /\ guard s = false
  /\ balanced (update s) = true
  /\ update (update s) = refresh (update s).
Proof.
  intros s.
  assert (R : reachable s) by (apply reach_key, reach_setup).
  assert (Eb : balanced s = false) by (vm_compute; reflexivity).
  assert (Eg : guard s = false) by (vm_compute; reflexivity).
  split; [exact R|]. split; [exact Eb|]. split; [exact Eg|].
  destruct (ExactFacts.one_tick_equilibrium R Eb Eg) as (_ & _ & H3 & H4).
  split; [exact H3 | exact H4].
Defined.

End Concrete.

(** * Rendering and the main loop *)

Section Frames.

Context {F : Type} {ops : FloatOps F}.

Implicit Types (s : state F).

(** ** The footprint of the two quads *)

Lemma update_footprint s : footprint s -> footprint (update s).
Proof.
  unfold footprint. intros H. rewrite update_cases.
  destruct (balanced s); [exact H|]. destruct (guard s); [exact H|].
  destruct H as (H1 & H2 & H3 & H4 & _ & H6 & H7 & H8 & H9 & _).
  cbn [applied big small bottomLeft bottomRight topLeft topRight set_y
       glm.x glm.y].
  repeat split; assumption.
Qed.

Lemma reachable_footprint s : reachable s -> footprint s.
Proof.
  induction 1 as [|s _ IH|s key scancode action mods _ IH|s delta _ IH].
  - unfold footprint. repeat split.
  - apply update_footprint, IH.
  - unfold footprint in *.
    destruct (key_callback_containers key scancode action mods s)
      as [-> ->].
    exact IH.
  - exact IH.
Qed.

Lemma renderScene_footprint s :
  footprint s ->
  renderScene s =
    renderScene (with_tops (glm.y (topLeft (big s)))
                           (glm.y (topLeft (small s))) setup).
Proof.
  destruct s as [[bh bw bbl bbr [btlx btly] [btrx btry] bp]
                 [sh sw sbl sbr [stlx stly] [strx stry] sp] e].
  unfold footprint.
  cbn [big small bottomLeft bottomRight topLeft topRight glm.x glm.y].
  intros (-> & -> & -> & -> & -> & -> & -> & -> & -> & ->).
  reflexivity.
Qed.

Lemma drawPiston_footprint s :
  footprint s ->
  drawPiston s =
    drawPiston (with_tops (glm.y (topLeft (big s)))
                          (glm.y (topLeft (small s))) setup).
Proof.
  destruct s as [[bh bw bbl bbr [btlx btly] [btrx btry] bp]
                 [sh sw sbl sbr [stlx stly] [strx stry] sp] e].
  unfold footprint.
  cbn [big small bottomLeft bottomRight topLeft topRight glm.x glm.y].
  intros (-> & -> & -> & -> & -> & -> & -> & -> & -> & ->).
  reflexivity.
Qed.

(** X1.  In every reachable state the frame [renderScene] draws is the
    frame of the initial geometry with the two top edges moved: the state
    shows in the picture only through [big.topLeft.y] and
    [small.topLeft.y]. *)
Theorem picture_depends_on_top_edges s :
  reachable s ->
  renderScene s =
    renderScene (with_tops (glm.y (topLeft (big s)))
                           (glm.y (topLeft (small s))) setup).
Proof. intros R. apply renderScene_footprint, reachable_footprint, R. Qed.

(** ** Heights and top edges *)

Lemma update_coupled s : coupled s -> coupled (update s).
Proof.
  intros H. rewrite update_cases.
  destruct (balanced s); [exact H|]. destruct (guard s); [exact H|].
  split; reflexivity.
Qed.

Lemma reachable_coupled s : coupled setup -> reachable s -> coupled s.
Proof.
  intros H0.
  induction 1 as [|s _ IH|s key scancode action mods _ IH|s delta _ IH].
  - exact H0.
  - apply update_coupled, IH.
  - unfold coupled in *.
    destruct (key_callback_containers key scancode action mods s)
      as [-> ->].
    exact IH.
  - exact IH.
Qed.

(** ** The loop *)

Lemma renderScene_refresh s : renderScene (refresh s) = renderScene s.
Proof. reflexivity. Qed.

Lemma main_loop_frame_states inputs : forall s,
  main_loop inputs s = map renderScene (frame_states inputs s).
Proof.
  induction inputs as [|keys rest IH]; intros s; [reflexivity|].
  cbn [main_loop frame_states map]. rewrite IH. reflexivity.
Qed.

Lemma reachable_glfwPollEvents keys : forall s,
  reachable s -> reachable (glfwPollEvents keys s).
Proof.
  induction keys as [|[[[key scancode] action] mods] keys IH]; intros s R.
  - exact R.
  - apply (IH (key_callback key scancode action mods s)).
    apply reach_key, R.
Qed.

Lemma reachable_frame_states inputs : forall s,
  reachable s -> Forall reachable (frame_states inputs s).
Proof.
  induction inputs as [|keys rest IH]; intros s R; [constructor|].
  cbn [frame_states]. constructor.
  - apply reach_tick, R.
  - apply IH, reachable_glfwPollEvents, reach_tick, R.
Qed.

(** X11.  The loop draws before it polls: the key events polled in an
    iteration, and everything after them, do not show in the frames drawn
    up to and including that iteration. *)
Theorem keys_show_one_frame_later
        (before : list (list key_event))
        (keys1 keys2 : list key_event)
        (rest1 rest2 : list (list key_event)) :
  firstn (S (length before)) (main (before ++ keys1 :: rest1))
  = firstn (S (length before)) (main (before ++ keys2 :: rest2)).
Proof.
  unfold main. generalize (@setup F ops).
  induction before as [|keys before IH]; intros s.
  - reflexivity.
  - cbn [app length main_loop].
    change (firstn (S (S (length before))) (?a :: ?l))
      with (a :: firstn (S (length before)) l).
    rewrite (IH (glfwPollEvents keys (update s))). reflexivity.
Qed.

End Frames.

(** * More on the exact instance *)

Module ExactMore.

Import Exact Picture ExactFacts.
Local Open Scope Q_scope.

Implicit Types (s : state Q).

Lemma fltb_true (a b : Q) : fltb a b = true <-> a < b.
Proof.
  cbn [fltb exact]. rewrite negb_true_iff. split.
  - intros E. apply Qnot_le_lt. intros L.
    apply Qle_bool_iff in L. congruence.
  - intros L. destruct (Qle_bool b a) eqn:E; [|reflexivity].
    apply Qle_bool_iff in E. exfalso. exact (Qlt_not_le _ _ L E).
Qed.

(** ** What a tick keeps *)

Lemma update_settled_geometry s :
  settled_geometry s -> settled_geometry (update s).
Proof.
  intros (V & S & Tb & Ts).
  pose proof (update_valid V) as V'.
  split; [exact V'|]. clear V'.
  destruct V as (_ & _ & G).
  rewrite update_cases.
  destruct (balanced s); [exact (conj S (conj Tb Ts))|].
  destruct (guard s); [exact (conj S (conj Tb Ts))|].
  destruct s as [[bh bw bbl bbr btl btr bp]
                 [sh sw sbl sbr stl str sp] e].
  qnorm. rewrite G. repeat split; try ring.
  rewrite <- S. ring.
Qed.

Lemma reachable_settled_geometry s : reachable s -> settled_geometry s.
Proof.
  induction 1 as [|s _ IH|s key scancode action mods _ IH|s delta _ IH].
  - split; [exact setup_valid|]. repeat split; vm_compute; reflexivity.
  - apply update_settled_geometry, IH.
  - unfold settled_geometry, valid in *.
    destruct (key_callback_containers key scancode action mods s)
      as [-> ->].
    exact IH.
  - exact IH.
Qed.

(** The two sums the guard tests, for heights that add up to [1]. *)
Lemma guard_sums s :
  height (big s) + height (small s) == 1 ->
  height (big s) + change s == (1 # 2) - externalPressure s * (5 # 98)
  /\ target_h s + change s == (1 # 2) + externalPressure s * (5 # 98).
Proof.
  intros S.
  destruct s as [[bh bw bbl bbr btl btr bp]
                 [sh sw sbl sbr stl str sp] e].
  qnorm. split.
  - setoid_replace sh with (1 - bh) by lra. ring.
  - setoid_replace sh with (1 - bh) by lra. ring.
Qed.

Lemma guard_iff s :
  height (big s) + height (small s) == 1 ->
  guard s = true <->
  98 # 10 < externalPressure s \/ externalPressure s < - (98 # 10).
Proof.
  intros S. destruct (guard_sums s S) as [E1 E2].
  unfold guard. rewrite orb_true_iff, !fltb_true.
  cbn [fadd flit exact]. rewrite E1, E2.
  split; (intros [H | H]; [left | right]; lra).
Qed.

Lemma balanced_heights s :
  height (big s) + height (small s) == 1 ->
  balanced s = true ->
  height (big s) == (1 # 2) - externalPressure s * (5 # 98)
  /\ height (small s) == (1 # 2) + externalPressure s * (5 # 98).
Proof.
  intros S B. apply balanced_iff in B.
  destruct s as [[bh bw bbl bbr btl btr bp]
                 [sh sw sbl sbr stl str sp] e].
  qnorm. split; lra.
Qed.

Lemma update_heights s :
  settled_geometry s ->
  - (98 # 10) <= externalPressure s <= 98 # 10 ->
  height (big (update s)) == (1 # 2) - externalPressure s * (5 # 98)
  /\ height (small (update s)) == (1 # 2) + externalPressure s * (5 # 98).
Proof.
  intros ((_ & _ & G) & S & _) He. rewrite update_cases.
  destruct (balanced s) eqn:Eb; [exact (balanced_heights s S Eb)|].
  destruct (guard s) eqn:Eg.
  - apply (guard_iff s S) in Eg. lra.
  - destruct (applied_heights s G) as [A1 A2].
    destruct (guard_sums s S) as [E1 E2].
    rewrite A1, A2, E1, E2. split; reflexivity.
Qed.

(** After one tick a reachable state is balanced or guarded, so every
    later tick only refreshes the [pressure] fields. *)
Lemma after_update s :
  reachable s -> balanced (update s) = true \/ guard (update s) = true.
Proof.
  intros R. destruct (reachable_valid R) as (_ & _ & G).
  destruct (balanced s) eqn:Eb.
  - left. rewrite (update_balanced s Eb), balanced_refresh. exact Eb.
  - destruct (guard s) eqn:Eg.
    + right. rewrite (update_guarded s Eg), guard_refresh. exact Eg.
    + left. apply balanced_iff.
      rewrite (update_applied s Eb Eg). apply applied_balanced, G.
Qed.

Lemma at_rest (t : state Q) :
  balanced t = true \/ guard t = true ->
  update t = refresh t /\ update (refresh t) = refresh t.
Proof.
  intros [E | E].
  - split; [apply update_balanced, E|].
    rewrite update_balanced by (rewrite balanced_refresh; exact E).
    apply refresh_idem.
  - split; [apply update_guarded, E|].
    rewrite update_guarded by (rewrite guard_refresh; exact E).
    apply refresh_idem.
Qed.

Lemma ticks_after_two s n :
  reachable s -> ticks (S (S n)) s = update (update s).
Proof.
  intros R. destruct (@at_rest (update s) (after_update R)) as [E1 E2].
  induction n as [|n IH]; [reflexivity|].
  rewrite ticks_succ, IH, E1. exact E2.
Qed.

(** ** The external pressure along a trace *)

Lemma externalPressure_step (e : event) s :
  externalPressure (step e s)
  == externalPressure s + inject_Z (pressure_step e) * (1 # 10).
Proof.
  destruct e as [|key scancode action mods]; cbn [step pressure_step].
  - rewrite externalPressure_update. cbn. ring.
  - unfold key_callback.
    destruct ((action =? GLFW_PRESS)%Z || (action =? GLFW_REPEAT)%Z).
    + rewrite !andb_true_r.
      destruct (key =? GLFW_KEY_SPACE)%Z eqn:E1;
        destruct (key =? GLFW_KEY_LEFT_SHIFT)%Z eqn:E2;
        cbn [with_externalPressure externalPressure fadd fsub flit exact
             inject_Z Z.sub Z.opp Z.add Z.pos_sub];
        ring.
    + rewrite !andb_false_r. cbn. ring.
Qed.

Lemma externalPressure_run tr : forall s,
  externalPressure (run tr s)
  == externalPressure s + inject_Z (pressure_steps tr) * (1 # 10).
Proof.
  induction tr as [|e tr IH]; intros s.
  - cbn. ring.
  - cbn [run pressure_steps fold_right]. rewrite IH, externalPressure_step.
    fold (pressure_steps tr). rewrite inject_Z_plus. ring.
Qed.

Lemma reachable_run (tr : list event) : forall s,
  reachable s -> reachable (run tr s).
Proof.
  induction tr as [|e tr IH]; intros s R; [exact R|].
  cbn [run]. apply IH.
  destruct e as [|key scancode action mods]; cbn [step].
  - apply reach_tick, R.
  - apply reach_key, R.
Qed.

(** ** Inside the viewport *)

Lemma vertices_in_viewport s :
  settled_geometry s -> footprint s ->
  Forall in_viewport (vertices (renderScene s)).
Proof.
  intros ((Hb & Hs & _) & S & Tb & Ts) Fp.
  rewrite (renderScene_footprint Fp).
  set (yb := glm.y (topLeft (big s))) in *.
  set (ys := glm.y (topLeft (small s))) in *.
  assert (Yb : - (1 # 2) <= yb <= 1 # 2) by (rewrite Tb; split; lra).
  assert (Ys : - (1 # 2) <= ys <= 1 # 2) by (rewrite Ts; split; lra).
  clearbody yb ys. clear - Yb Ys.
  cbn. unfold in_viewport, Qdiv.
  change (/ (20 # 10)) with (10 # 20). change (inject_Z 0) with 0.
  repeat (constructor; [cbn [fst snd]; repeat split; lra|]).
  constructor.
Qed.

Lemma piston_vertices s :
  settled_geometry s -> footprint s ->
  Forall2 same_vertex (vertices (drawPiston s))
    [ (- (3 # 4), height (big s) - (1 # 2));
      (- (1 # 4), height (big s) - (1 # 2));
      (- (1 # 4), height (big s) - (2 # 5));
      (- (3 # 4), height (big s) - (2 # 5));
      (- (51 # 100), height (big s) - (1 # 2));
      (- (49 # 100), height (big s) - (1 # 2));
      (- (49 # 100), 1);
      (- (51 # 100), 1) ].
Proof.
  intros (_ & _ & Tb & _) Fp.
  rewrite (drawPiston_footprint Fp).
  set (yb := glm.y (topLeft (big s))) in *.
  generalize (glm.y (topLeft (small s))). intros ys.
  cbn. unfold same_vertex, Qdiv.
  change (/ (20 # 10)) with (10 # 20). change (inject_Z 0) with 0.
  repeat (constructor; [cbn [fst snd]; rewrite ?Tb; split; ring|]).
  constructor.
Qed.

(** ** The frames of the loop *)

Lemma idle_loop n : forall s,
  reachable s ->
  main_loop (repeat [] (S n)) s = repeat (renderScene (update s)) (S n).
Proof.
  induction n as [|n IH]; intros s R; [reflexivity|].
  change (repeat [] (S (S n))) with (@nil key_event :: repeat [] (S n)).
  cbn [main_loop glfwPollEvents fold_left].
  rewrite (IH (update s) (reach_tick R)).
  destruct (@at_rest (update s) (after_update R)) as [E _].
  rewrite E, renderScene_refresh. reflexivity.
Qed.

(** ** The properties *)











End ExactMore.

(** * Top edges and heights *)

(** X2.  The geometry follows the heights in every reachable state.  In
    binary32, [big.topLeft.y] is [big.height - 0.5f] and [small.height] is
    [small.topLeft.y - small.bottomLeft.y], bit for bit; in exact
    arithmetic both top edges are at [height - 0.5]. *)
Theorem top_edges_track_heights :
  (forall s : state B32.float,
      reachable s ->
      glm.y (topLeft (big s)) = fsub (height (big s)) (flit 5 10)
      /\ height (small s) =
           fsub (glm.y (topLeft (small s))) (glm.y (bottomLeft (small s))))
  /\ (forall s : state Q,
        reachable s ->
        (glm.y (topLeft (big s)) == height (big s) - (1 # 2))%Q
        /\ (glm.y (topLeft (small s)) == height (small s) - (1 # 2))%Q).
Proof.
  split.
  - intros s R. apply (reachable_coupled (s := s)); [|exact R].
    split; vm_compute; reflexivity.
  - intros s R.
    destruct (ExactMore.reachable_settled_geometry R) as (_ & _ & Tb & Ts).
    split; assumption.
Qed.

(** * The further properties at concrete states *)

Module ConcreteMore.

Import Exact Picture.

Lemma picture_of_back_in_balance :
  let s := Scenario.back_in_balance binary32 in
  reachable s
  /\ renderScene s =
       renderScene (with_tops (glm.y (topLeft (big s)))
                              (glm.y (topLeft (small s))) setup).
Proof.
  intros s.
  assert (R : reachable s) by exact (reachable_back_in_balance binary32).
  split; [exact R|].
  exact (picture_depends_on_top_edges R).
Defined.

Lemma top_edges_of_pulled_hard :
  let s := Scenario.pulled_hard binary32 in
  reachable s
  /\ glm.y (topLeft (big s)) = fsub (height (big s)) (flit 5 10)
  /\ height (small s) =
       fsub (glm.y (topLeft (small s))) (glm.y (bottomLeft (small s))).
Proof.
  intros s.
  assert (R : reachable s) by exact (reachable_pulled_hard binary32).
  split; [exact R|].
  exact (proj1 top_edges_track_heights s R).
Defined.









End ConcreteMore.
